(** * The log-capturing tracer of eth/tracers/native/prestate.go

    A shallow embedding of [prestateTracer] (its state, the [OnOpcode] hook,
    [Stop], [GetResult] and [lookupLog]) together with the properties its
    specification states about it.

    Conventions.
    - A Go [byte] holding an opcode and a [uint256.Int] stack word are
      integers in [Z]; the conversions [Uint64] and [int64] write the
      truncation and the sign reinterpretation out.
    - Memory and extracted data are [list byte].
    - A Go [error] value is its message; the interface value [nil] is [None].
    - A run-time panic (slice index out of range) is the outcome [Panic].
    - [log.Warn] is modelled by returning the emitted records. *)

From Stdlib Require Import ZArith String Ascii Strings.Byte Bool Arith Lia List.
From Equations Require Import Equations.
Import ListNotations.

Local Open Scope Z_scope.

(** ** Values shared with the host packages *)

Definition error : Type := string.

Module common.
(** [common.Address] is a [[20]byte]. *)
Definition Address : Type := list byte.
End common.

Module uint256.
(** [uint256.Int]: an unsigned 256-bit word. *)
Definition Int : Type := Z.

(** The method [Uint64] returns the lowest of the four 64-bit limbs. *)
Definition Uint64 (z : Int) : Z := Z.land z (2 ^ 64 - 1).
End uint256.

(** The Go conversion [int64(u)] of a [uint64]: same bits, two's complement. *)
Definition int64 (u : Z) : Z := if u <? 2 ^ 63 then u else u - 2 ^ 64.

(** Go indexing [s[i]] with an [int] index: [None] stands for the panic. *)
Definition index {A : Type} (s : list A) (i : Z) : option A :=
  if i <? 0 then None else nth_error s (Z.to_nat i).

(** Go slicing [s[lo:hi]] for [0 <= lo <= hi <= len(s)]. *)
Definition slice {A : Type} (s : list A) (lo hi : nat) : list A :=
  firstn (hi - lo) (skipn lo s).

Module hex.
(** [encoding/hex]: two lower-case digits per byte, high nibble first. *)
Definition hextable : string := "0123456789abcdef".

Definition digit (n : N) : ascii :=
  match String.get (N.to_nat n) hextable with
  | Some c => c
  | None => "0"%char
  end.

Fixpoint EncodeToString (src : list byte) : string :=
  match src with
  | [] => EmptyString
  | v :: rest =>
      String (digit (N.shiftr (Byte.to_N v) 4))
        (String (digit (N.land (Byte.to_N v) 0x0f))
           (EncodeToString rest))
  end.
End hex.

Module tracing.
(** The part of [tracing.OpContext] the tracer calls.  [StackData] lists
    the stack bottom first: the top of the stack is the last element. *)
Record OpContext : Type := {
  StackData : list uint256.Int;
  Address : common.Address;
  MemoryData : list byte
}.
End tracing.

(** ** The tracer's data *)

Record event : Type := {
  Caller : common.Address;
  Topics0 : uint256.Int;
  Data : list string
}.

Record prestateTracer : Type := {
  pre : list event;
  isFail : bool;
  reason : option error
}.

(** The anonymous struct [GetResult] hands to [json.Marshal]. *)
Record report : Type := {
  Event : list event;
  IsFail : bool;
  Reason : option error
}.

(** One [log.Warn] record: message, then the key/value context. *)
Record warning : Type := {
  w_msg : string;
  w_err : error;
  w_tracer : string;
  w_offset : uint256.Int;
  w_size : uint256.Int
}.

Inductive outcome : Type :=
| Panic
| Done (t : prestateTracer) (logged : list warning).

(** The state [newPrestateTracer] builds. *)
Definition newPrestateTracer : prestateTracer :=
  {| pre := []; isFail := false; reason := None |}.

Definition lookupLog (t : prestateTracer) (addr : common.Address)
    (data : list string) (topics0 : uint256.Int) : prestateTracer :=
  {| pre := pre t ++ [ {| Caller := addr; Topics0 := topics0; Data := data |} ];
     isFail := isFail t;
     reason := reason t |}.

Definition Stop (t : prestateTracer) (err : option error) : prestateTracer :=
  {| pre := pre t; isFail := true; reason := err |}.

Definition OnTxStart (t : prestateTracer) : prestateTracer := t.

Definition OnTxEnd (t : prestateTracer) : prestateTracer := t.

(** The chunking loop of [OnOpcode]:
    [for i := 0; i < len(data); i += 32 { ... dataRes = append(dataRes, ...) }].
    The index is a [nat]: it never exceeds [len(data) + 31], far from the
    range of a Go [int] for any slice that exists. *)
Equations? chunkLoop (data : list byte) (i : nat) (dataRes : list string)
  : list string by wf (length data - i)%nat lt :=
  chunkLoop data i dataRes with lt_dec i (length data) => {
    | left _ =>
        let end_ := (if Nat.ltb (length data) (i + 32) then length data
                     else i + 32)%nat in
        let hexString := ("0x" ++ hex.EncodeToString (slice data i end_))%string in
        chunkLoop data (i + 32)%nat (dataRes ++ [hexString]);
    | right _ => dataRes }.
Proof. lia. Qed.

Definition hexChunks (data : list byte) : list string := chunkLoop data 0%nat [].

(** The string the loop appends for the chunk that starts at index [i]
    (used to state what the loop computes). *)
Definition hexChunk (data : list byte) (i : nat) : string :=
  ("0x" ++ hex.EncodeToString
             (slice data i (Nat.min (i + 32) (length data))))%string.

(** The type of [internal.GetMemoryCopyPadded]. *)
Definition copier : Type := list byte -> Z -> Z -> list byte + error.

Section Tracer.

(** [internal.GetMemoryCopyPadded], of package eth/tracers/internal: the
    tracer is defined over any function of this type. *)
Variable GetMemoryCopyPadded : copier.

(** [json.Marshal] at the report struct. *)
Variable json_Marshal : report -> list byte + error.

Definition OnOpcode (t : prestateTracer) (opcode : Z)
    (scope : tracing.OpContext) : outcome :=
  if opcode =? 0xfd then
    Done {| pre := pre t; isFail := true; reason := reason t |} []
  else if (opcode >? 0xa0) && (opcode <=? 0xa4) then
    let stackData := tracing.StackData scope in
    let stackLen := Z.of_nat (length stackData) in
    let caller := tracing.Address scope in
    match index stackData (stackLen - 1),
          index stackData (stackLen - 2),
          index stackData (stackLen - 3) with
    | Some offset, Some size, Some topics0 =>
        match GetMemoryCopyPadded (tracing.MemoryData scope)
                (int64 (uint256.Uint64 offset))
                (int64 (uint256.Uint64 size)) with
        | inr err =>
            Done t [ {| w_msg := "failed to copy CREATE2 input";
                        w_err := err;
                        w_tracer := "prestateTracer";
                        w_offset := offset;
                        w_size := size |} ]
        | inl data => Done (lookupLog t caller (hexChunks data) topics0) []
        end
    | _, _, _ => Panic
    end
  else Done t [].

Definition GetResult (t : prestateTracer) : option (list byte) * option error :=
  match json_Marshal {| Event := pre t; IsFail := isFail t; Reason := reason t |} with
  | inr err => (None, Some err)
  | inl res => (Some res, reason t)
  end.

(** *** A trace session

    The host calls the hooks one after the other; a session is the list of
    these calls.  [GetResult] only reads the state.  A panicking hook ends
    the run ([None]). *)

Inductive call : Type :=
| CallOnOpcode (opcode : Z) (scope : tracing.OpContext)
| CallOnTxStart
| CallOnTxEnd
| CallGetResult
| CallStop (err : option error).

Definition step (t : prestateTracer) (c : call) : option prestateTracer :=
  match c with
  | CallOnOpcode opcode scope =>
      match OnOpcode t opcode scope with
      | Done t' _ => Some t'
      | Panic => None
      end
  | CallOnTxStart => Some (OnTxStart t)
  | CallOnTxEnd => Some (OnTxEnd t)
  | CallGetResult => Some t
  | CallStop err => Some (Stop t err)
  end.

Fixpoint run (t : prestateTracer) (cs : list call) : option prestateTracer :=
  match cs with
  | [] => Some t
  | c :: cs' =>
      match step t c with
      | Some t' => run t' cs'
      | None => None
      end
  end.

(** *** Vocabulary of the statements *)

(** What the hook does with a log instruction once its three operands are
    known: lines 89 to 104 of the source, as a function of the operands. *)
Definition capture (t : prestateTracer) (scope : tracing.OpContext)
    (offset size topics0 : uint256.Int) : outcome :=
  match GetMemoryCopyPadded (tracing.MemoryData scope)
          (int64 (uint256.Uint64 offset))
          (int64 (uint256.Uint64 size)) with
  | inr err =>
      Done t [ {| w_msg := "failed to copy CREATE2 input";
                  w_err := err;
                  w_tracer := "prestateTracer";
                  w_offset := offset;
                  w_size := size |} ]
  | inl data =>
      Done {| pre := pre t ++ [ {| Caller := tracing.Address scope;
                                   Topics0 := topics0;
                                   Data := hexChunks data |} ];
              isFail := isFail t;
              reason := reason t |} []
  end.

End Tracer.

(** The slot [k] places below the top of the stack ([k = 0] is the top). *)
Definition from_top (k : nat) (stackData : list uint256.Int) : option uint256.Int :=
  nth_error (rev stackData) k.

(** The reason of the last [CallStop] of a session, if there is one. *)
Fixpoint last_stop (cs : list call) : option (option error) :=
  match cs with
  | [] => None
  | CallStop err :: cs' =>
      match last_stop cs' with
      | Some r => Some r
      | None => Some err
      end
  | _ :: cs' => last_stop cs'
  end.

(** The host has put the operands of the instruction on the stack before it
    calls the hook (three slots are all the hook reads). *)
Definition stack_ready (c : call) : Prop :=
  match c with
  | CallOnOpcode _ scope => (3 <= length (tracing.StackData scope))%nat
  | _ => True
  end.

(** *** Vocabulary for whole sessions *)

(** The session as [run] has it, keeping the records the hook logs. *)
Fixpoint run_logged (copy : copier) (t : prestateTracer) (cs : list call)
    : option (prestateTracer * list warning) :=
  match cs with
  | [] => Some (t, [])
  | CallOnOpcode opcode scope :: cs' =>
      match OnOpcode copy t opcode scope with
      | Done t' logged =>
          match run_logged copy t' cs' with
          | Some (t'', later) => Some (t'', logged ++ later)
          | None => None
          end
      | Panic => None
      end
  | c :: cs' =>
      match step copy t c with
      | Some t' => run_logged copy t' cs'
      | None => None
      end
  end.

(** The call observes an opcode that passes the hook's range test. *)
Definition is_log (c : call) : bool :=
  match c with
  | CallOnOpcode opcode _ => (opcode >? 0xa0) && (opcode <=? 0xa4)
  | _ => false
  end.

(** The call is one of the two that assign [isFail]. *)
Definition sets_fail (c : call) : bool :=
  match c with
  | CallOnOpcode opcode _ => opcode =? 0xfd
  | CallStop _ => true
  | _ => false
  end.

(** The events a call contributes: one for a log instruction whose
    extraction succeeds, none otherwise. *)
Definition emitted (copy : copier) (c : call) : list event :=
  match c with
  | CallOnOpcode opcode scope =>
      if (opcode >? 0xa0) && (opcode <=? 0xa4) then
        match from_top 0 (tracing.StackData scope),
              from_top 1 (tracing.StackData scope),
              from_top 2 (tracing.StackData scope) with
        | Some offset, Some size, Some topics0 =>
            match copy (tracing.MemoryData scope)
                    (int64 (uint256.Uint64 offset))
                    (int64 (uint256.Uint64 size)) with
            | inl data => [ {| Caller := tracing.Address scope;
                               Topics0 := topics0;
                               Data := hexChunks data |} ]
            | inr _ => []
            end
        | _, _, _ => []
        end
      else []
  | _ => []
  end.

(** *** Reading the hex chunks back

    The reader's side of [encoding/hex]: [fromHexChar] and [DecodeString]
    ([None] stands for its error results), and the inverse of the chunking
    loop, which strips each chunk's prefix and joins the decoded bytes. *)

Definition fromHexChar (c : ascii) : option N :=
  let n := N_of_ascii c in
  if ((48 <=? n) && (n <=? 57))%N then Some (n - 48)%N
  else if ((97 <=? n) && (n <=? 102))%N then Some (n - 87)%N
  else if ((65 <=? n) && (n <=? 70))%N then Some (n - 55)%N
  else None.

Fixpoint DecodeString (s : string) : option (list byte) :=
  match s with
  | EmptyString => Some []
  | String _ EmptyString => None
  | String hi (String lo rest) =>
      match fromHexChar hi, fromHexChar lo, DecodeString rest with
      | Some a, Some b, Some l =>
          match Byte.of_N (16 * a + b) with
          | Some v => Some (v :: l)
          | None => None
          end
      | _, _, _ => None
      end
  end.

Fixpoint decodeChunks (chunks : list string) : option (list byte) :=
  match chunks with
  | [] => Some []
  | String "0" (String "x" digits) :: rest =>
      match DecodeString digits, decodeChunks rest with
      | Some a, Some b => Some (a ++ b)
      | _, _ => None
      end
  | _ :: _ => None
  end.

Module internal.

Definition RangeError : error := "RangeError"%string.

(** Modelled from the spec: the function [GetMemoryCopyPadded] of package
    eth/tracers/internal, which [OnOpcode] calls and whose file is not among
    the sources.  Section 4.2 of the specification: a negative [offset] or
    [size] is rejected with a range error; otherwise the result has [size]
    bytes, those of [memory] from [offset] on as far as [memory] reaches,
    then zero bytes. *)
Definition GetMemoryCopyPadded (m : list byte) (offset size : Z)
    : list byte + error :=
  if (offset <? 0) || (size <? 0) then inr RangeError
  else
    let inside := firstn (Z.to_nat size) (skipn (Z.to_nat offset) m) in
    inl (inside ++ repeat x00 (Z.to_nat size - length inside)).

End internal.

(** ** Concrete inputs for the examples *)

Definition scope_33 : tracing.OpContext :=
  {| tracing.StackData := [9; 33; 1];
     tracing.Address := [xaa];
     tracing.MemoryData := x00 :: repeat x42 31 ++ [x01; x21] |}.

Definition scope_negative : tracing.OpContext :=
  {| tracing.StackData := [5; 2 ^ 64 - 1; 0];
     tracing.Address := [xaa];
     tracing.MemoryData := [x42] |}.

(** A marshaller that rejects one report and encodes every other as [{}]. *)
Definition marshal_sample (r : report) : list byte + error :=
  match Reason r with
  | Some "unencodable"%string => inr "json: unsupported value"%string
  | _ => inl [x7b; x7d]
  end.

Definition scope_four : tracing.OpContext :=
  {| tracing.StackData := [0x77; 0x33; 0x02; 0x01];
     tracing.Address := [xaa];
     tracing.MemoryData := [xaa; xbb; xcc; xdd] |}.

Definition scope_log1 : tracing.OpContext :=
  {| tracing.StackData := [7; 1; 0];
     tracing.Address := [xaa];
     tracing.MemoryData := [x42] |}.

Example log1_end_to_end :
  OnOpcode internal.GetMemoryCopyPadded newPrestateTracer 0xa1 scope_log1
  = Done {| pre := [ {| Caller := [xaa]; Topics0 := 7; Data := ["0x42"%string] |} ];
            isFail := false; reason := None |} [].
Proof. reflexivity. Qed.

Example padded_read :
  internal.GetMemoryCopyPadded [x01; x02; xff] 1 4 = inl [x02; xff; x00; x00].
Proof. reflexivity. Qed.

Example padded_read_64_of_32 :
  internal.GetMemoryCopyPadded (repeat x5a 32) 0 64
  = inl (repeat x5a 32 ++ repeat x00 32).
Proof. reflexivity. Qed.

Example chunks_of_33 :
  hexChunks (repeat xab 33)
  = ["0xabababababababababababababababababababababababababababababababab"%string;
     "0xab"%string].
Proof. reflexivity. Qed.

Example int64_wraps : int64 (uint256.Uint64 (2 ^ 256 - 1)) = -1.
Proof. reflexivity. Qed.

(** ** The chunking loop *)

(** One turn of the loop, with [end] written as a minimum. *)
Lemma chunkLoop_step (data : list byte) (i : nat) (dataRes : list string) :
  chunkLoop data i dataRes =
  if lt_dec i (length data) then
    chunkLoop data (i + 32)%nat
      (dataRes ++ [("0x" ++ hex.EncodeToString
                      (slice data i (Nat.min (i + 32) (length data))))%string])
  else dataRes.
Proof.
  rewrite chunkLoop_equation_1.
  destruct (lt_dec i (length data)) as [Hlt | Hge];
    simp chunkLoop; [ | reflexivity ].
  cbv zeta.
  destruct (Nat.ltb_spec (length data) (i + 32)) as [H | H].
  - rewrite Nat.min_r by lia. reflexivity.
  - rewrite Nat.min_l by lia. reflexivity.
Qed.

Lemma chunkLoop_acc (data : list byte) :
  forall (n i : nat) (dataRes : list string),
    (length data - i <= n)%nat ->
    chunkLoop data i dataRes = dataRes ++ chunkLoop data i [].
Proof.
  induction n as [ | n IH ]; intros i dataRes Hn;
    rewrite (chunkLoop_step data i dataRes), (chunkLoop_step data i []);
    destruct (lt_dec i (length data)) as [Hlt | Hge];
    try lia; try (now rewrite app_nil_r).
  rewrite (IH (i + 32)%nat (dataRes ++ _)) by lia.
  rewrite (IH (i + 32)%nat ([] ++ _)) by lia.
  now rewrite <- app_assoc.
Qed.

Lemma chunkLoop_cons (data : list byte) (i : nat) :
  (i < length data)%nat ->
  chunkLoop data i [] = hexChunk data i :: chunkLoop data (i + 32) [].
Proof.
  intros Hlt. rewrite chunkLoop_step.
  destruct (lt_dec i (length data)) as [ _ | Hge]; [ | lia ].
  rewrite (chunkLoop_acc data (length data)) by lia. reflexivity.
Qed.

Lemma chunkLoop_done (data : list byte) (i : nat) :
  (length data <= i)%nat -> chunkLoop data i [] = [].
Proof.
  intros Hge. rewrite chunkLoop_step.
  destruct (lt_dec i (length data)); [ lia | reflexivity ].
Qed.

Lemma chunkLoop_length (data : list byte) :
  forall (n i : nat),
    (length data - i <= n)%nat ->
    length (chunkLoop data i []) = ((length data - i + 31) / 32)%nat.
Proof.
  induction n as [ | n IH ]; intros i Hn.
  - rewrite chunkLoop_done by lia.
    replace (length data - i + 31)%nat with 31%nat by lia. reflexivity.
  - destruct (lt_dec i (length data)) as [Hlt | Hge].
    + rewrite chunkLoop_cons by exact Hlt. cbn [length].
      rewrite IH by lia.
      destruct (le_lt_dec (i + 32) (length data)) as [Hfull | Hlast].
      * replace (length data - i + 31)%nat
          with ((length data - (i + 32) + 31) + 1 * 32)%nat by lia.
        rewrite Nat.div_add by discriminate. lia.
      * replace (length data - (i + 32) + 31)%nat with 31%nat by lia.
        change (31 / 32)%nat with 0%nat.
        apply (Nat.div_unique _ 32 1 (length data - i - 1))%nat; lia.
    + rewrite chunkLoop_done by lia.
      replace (length data - i + 31)%nat with 31%nat by lia. reflexivity.
Qed.

Lemma chunkLoop_nth (data : list byte) :
  forall (k i : nat),
    (i + 32 * k < length data)%nat ->
    nth_error (chunkLoop data i []) k = Some (hexChunk data (i + 32 * k)).
Proof.
  induction k as [ | k IH ]; intros i Hk.
  - rewrite chunkLoop_cons by lia. cbn [nth_error].
    now replace (i + 32 * 0)%nat with i by lia.
  - rewrite chunkLoop_cons by lia. cbn [nth_error].
    rewrite IH by lia.
    now replace (i + 32 + 32 * k)%nat with (i + 32 * S k)%nat by lia.
Qed.

Lemma slice_length {A : Type} (s : list A) (lo hi : nat) :
  (lo <= hi <= length s)%nat -> length (slice s lo hi) = (hi - lo)%nat.
Proof.
  intros H. unfold slice. rewrite length_firstn, length_skipn. lia.
Qed.

Lemma EncodeToString_length (src : list byte) :
  String.length (hex.EncodeToString src) = (2 * length src)%nat.
Proof.
  induction src as [ | v rest IH ]; cbn [hex.EncodeToString String.length length].
  - reflexivity.
  - rewrite IH. lia.
Qed.

Lemma digit_lowercase (v : byte) :
  In (hex.digit (N.shiftr (Byte.to_N v) 4)) (list_ascii_of_string hex.hextable)
  /\ In (hex.digit (N.land (Byte.to_N v) 0x0f)) (list_ascii_of_string hex.hextable).
Proof.
  destruct v; vm_compute; intuition.
Qed.

Lemma index_from_top (s : list uint256.Int) (k : nat) :
  index s (Z.of_nat (length s) - Z.of_nat (S k)) = from_top k s.
Proof.
  unfold index, from_top. rewrite nth_error_rev.
  destruct (Nat.ltb_spec k (length s)) as [Hk | Hk];
    destruct (Z.ltb_spec (Z.of_nat (length s) - Z.of_nat (S k)) 0) as [Hz | Hz];
    try lia; try reflexivity.
  f_equal. lia.
Qed.

Lemma log_range_test (opcode : Z) :
  (opcode >? 0xa0) && (opcode <=? 0xa4) = true <-> 0xa0 < opcode <= 0xa4.
Proof.
  rewrite andb_true_iff, Z.gtb_ltb, Z.ltb_lt, Z.leb_le. reflexivity.
Qed.

Section TracerFacts.

Variable GetMemoryCopyPadded : copier.

(** A log instruction with a short stack panics; otherwise the hook does
    what [capture] describes, on the three topmost slots. *)
Lemma OnOpcode_log_family (t : prestateTracer) (opcode : Z)
    (scope : tracing.OpContext) :
  0xa0 < opcode <= 0xa4 ->
  OnOpcode GetMemoryCopyPadded t opcode scope =
  match from_top 0 (tracing.StackData scope),
        from_top 1 (tracing.StackData scope),
        from_top 2 (tracing.StackData scope) with
  | Some offset, Some size, Some topics0 => capture GetMemoryCopyPadded t scope offset size topics0
  | _, _, _ => Panic
  end.
Proof.
  intros Hop. unfold OnOpcode.
  destruct (Z.eqb_spec opcode 0xfd) as [-> | _]; [ lia | ].
  rewrite (proj2 (log_range_test opcode) Hop). cbv zeta.
  rewrite (index_from_top _ 0), (index_from_top _ 1), (index_from_top _ 2).
  destruct (from_top 0 _) as [offset | ]; [ | reflexivity ].
  destruct (from_top 1 _) as [size | ]; [ | reflexivity ].
  destruct (from_top 2 _) as [topics0 | ]; reflexivity.
Qed.

Lemma OnOpcode_capture (t : prestateTracer) (opcode : Z)
    (scope : tracing.OpContext) (offset size topics0 : uint256.Int) :
  0xa0 < opcode <= 0xa4 ->
  from_top 0 (tracing.StackData scope) = Some offset ->
  from_top 1 (tracing.StackData scope) = Some size ->
  from_top 2 (tracing.StackData scope) = Some topics0 ->
  OnOpcode GetMemoryCopyPadded t opcode scope = capture GetMemoryCopyPadded t scope offset size topics0.
Proof.
  intros Hop H0 H1 H2.
  rewrite OnOpcode_log_family by exact Hop. now rewrite H0, H1, H2.
Qed.

Lemma OnOpcode_fault (t : prestateTracer) (scope : tracing.OpContext) :
  OnOpcode GetMemoryCopyPadded t 0xfd scope
  = Done {| pre := pre t; isFail := true; reason := reason t |} [].
Proof. reflexivity. Qed.

Lemma OnOpcode_other (t : prestateTracer) (opcode : Z)
    (scope : tracing.OpContext) :
  opcode <> 0xfd -> ~ 0xa0 < opcode <= 0xa4 ->
  OnOpcode GetMemoryCopyPadded t opcode scope = Done t [].
Proof.
  intros Hfault Hlog. unfold OnOpcode.
  destruct (Z.eqb_spec opcode 0xfd) as [ | _]; [ contradiction | ].
  destruct ((opcode >? 0xa0) && (opcode <=? 0xa4)) eqn:Hrange;
    [ | reflexivity ].
  apply log_range_test in Hrange. contradiction.
Qed.

(** Whatever the hook does, it keeps the stop reason, never clears the
    failure flag and only ever extends the event list. *)
Lemma OnOpcode_frame (t t' : prestateTracer) (opcode : Z)
    (scope : tracing.OpContext) (logged : list warning) :
  OnOpcode GetMemoryCopyPadded t opcode scope = Done t' logged ->
  reason t' = reason t
  /\ (isFail t = true -> isFail t' = true)
  /\ (opcode <> 0xfd -> isFail t' = isFail t)
  /\ exists evs, pre t' = pre t ++ evs.
Proof.
  unfold OnOpcode.
  destruct (Z.eqb_spec opcode 0xfd) as [-> | Hne].
  - intros [= <- _]. cbn. repeat split; try easy.
    exists []. now rewrite app_nil_r.
  - destruct ((opcode >? 0xa0) && (opcode <=? 0xa4)).
    + cbv zeta.
      destruct (index _ _) as [offset | ]; [ | discriminate ].
      destruct (index _ _) as [size | ]; [ | discriminate ].
      destruct (index _ _) as [topics0 | ]; [ | discriminate ].
      destruct (GetMemoryCopyPadded _ _ _) as [data | err]; intros [= <- _].
      * cbn. repeat split; try easy. eexists. reflexivity.
      * repeat split; try easy. exists []. now rewrite app_nil_r.
    + intros [= <- _]. repeat split; try easy.
      exists []. now rewrite app_nil_r.
Qed.

Lemma step_frame (t t' : prestateTracer) (c : call) :
  step GetMemoryCopyPadded t c = Some t' ->
  (isFail t = true -> isFail t' = true)
  /\ (last_stop [c] = None -> reason t' = reason t).
Proof.
  destruct c as [opcode scope | | | | err]; cbn.
  - destruct (OnOpcode _ t opcode scope) as [ | t1 logged] eqn:Hop;
      [ discriminate | ].
    intros [= <-]. apply OnOpcode_frame in Hop. tauto.
  - intros [= <-]. tauto.
  - intros [= <-]. tauto.
  - intros [= <-]. tauto.
  - intros [= <-]. cbn. split; [ reflexivity | discriminate ].
Qed.

End TracerFacts.

(** ** The operands of a log instruction *)

(** C1, as amended.  For an opcode of the log family the hook takes
    [offset] from the top slot of the stack, [size] from the slot below it
    and [topic] from the third slot from the top, and proceeds with these
    three values; the fourth slot is not read. *)
Theorem log_operands_top_three (copy : copier) (t : prestateTracer)
    (opcode : Z) (scope : tracing.OpContext) (offset size topic : uint256.Int) :
  0xa0 < opcode <= 0xa4 ->
  from_top 0 (tracing.StackData scope) = Some offset ->
  from_top 1 (tracing.StackData scope) = Some size ->
  from_top 2 (tracing.StackData scope) = Some topic ->
  OnOpcode copy t opcode scope = capture copy t scope offset size topic.
Proof. apply OnOpcode_capture. Qed.

Lemma log_operands_top_three_witness :
  OnOpcode internal.GetMemoryCopyPadded newPrestateTracer 0xa1 scope_four
  = capture internal.GetMemoryCopyPadded newPrestateTracer scope_four
      0x01 0x02 0x33.
Proof.
  apply (log_operands_top_three internal.GetMemoryCopyPadded
           newPrestateTracer 0xa1 scope_four 0x01 0x02 0x33);
    [ lia | reflexivity | reflexivity | reflexivity ].
Defined.

(** C1 as stated fails: on the stack [0x77; 0x33; 0x02; 0x01] (top last) the
    hook does not behave as if [offset], [size] and [topic] were the second,
    third and fourth slots from the top. *)
Lemma log_operands_not_second_to_fourth :
  ~ (forall offset size topic : uint256.Int,
       from_top 1 (tracing.StackData scope_four) = Some offset ->
       from_top 2 (tracing.StackData scope_four) = Some size ->
       from_top 3 (tracing.StackData scope_four) = Some topic ->
       OnOpcode internal.GetMemoryCopyPadded newPrestateTracer 0xa1 scope_four
       = capture internal.GetMemoryCopyPadded newPrestateTracer scope_four
           offset size topic).
Proof.
  intros H. specialize (H 0x02 0x33 0x77 eq_refl eq_refl eq_refl).
  vm_compute in H. discriminate H.
Qed.

(** ** Opcode classes *)

(** C2, as amended.  The hook knows one fault opcode, [0xfd], on which it
    sets [isFail] and does nothing else; the log family is the four opcodes
    [0xa1 .. 0xa4], which lie below the fault opcode, and on them the hook
    reads three stack slots and captures; every other opcode leaves the
    state as it is and logs nothing.  No opcode other than [0xfd] changes
    [isFail]. *)
Theorem opcode_classes (copy : copier) (t : prestateTracer) (opcode : Z)
    (scope : tracing.OpContext) :
  (opcode = 0xfd ->
   OnOpcode copy t opcode scope
   = Done {| pre := pre t; isFail := true; reason := reason t |} [])
  /\ (0xa1 <= opcode <= 0xa4 ->
      OnOpcode copy t opcode scope
      = match from_top 0 (tracing.StackData scope),
              from_top 1 (tracing.StackData scope),
              from_top 2 (tracing.StackData scope) with
        | Some offset, Some size, Some topic =>
            capture copy t scope offset size topic
        | _, _, _ => Panic
        end)
  /\ (opcode <> 0xfd -> ~ 0xa1 <= opcode <= 0xa4 ->
      OnOpcode copy t opcode scope = Done t [])
  /\ (opcode <> 0xfd ->
      forall t' logged, OnOpcode copy t opcode scope = Done t' logged ->
                        isFail t' = isFail t).
Proof.
  repeat split.
  - intros ->. apply OnOpcode_fault.
  - intros Hop. apply OnOpcode_log_family. lia.
  - intros Hfault Hlog. apply OnOpcode_other; [ exact Hfault | lia ].
  - intros Hfault t' logged Hdone.
    now apply (OnOpcode_frame copy t t' opcode scope logged Hdone).
Qed.

Lemma opcode_classes_witness :
  OnOpcode internal.GetMemoryCopyPadded newPrestateTracer 0xfd scope_log1
  = Done {| pre := []; isFail := true; reason := None |} []
  /\ OnOpcode internal.GetMemoryCopyPadded newPrestateTracer 0xa4 scope_log1
     = capture internal.GetMemoryCopyPadded newPrestateTracer scope_log1 0 1 7
  /\ OnOpcode internal.GetMemoryCopyPadded newPrestateTracer 0xa0 scope_log1
     = Done newPrestateTracer [].
Proof.
  pose proof (opcode_classes internal.GetMemoryCopyPadded newPrestateTracer
                0xfd scope_log1) as Hfault.
  pose proof (opcode_classes internal.GetMemoryCopyPadded newPrestateTracer
                0xa4 scope_log1) as Hlog.
  pose proof (opcode_classes internal.GetMemoryCopyPadded newPrestateTracer
                0xa0 scope_log1) as Hother.
  split; [ | split ].
  - apply (proj1 Hfault). reflexivity.
  - apply (proj1 (proj2 Hlog)). lia.
  - apply (proj1 (proj2 (proj2 Hother))); lia.
Defined.

(** C2 as stated fails: [0xa1] is neither the fault opcode nor one of the
    four codes right above it, and the hook is not a no-op on it; and [0xfe],
    right above the fault opcode, is not treated as a log instruction. *)
Lemma log_family_not_above_fault :
  ~ (forall opcode : Z,
       opcode <> 0xfd -> ~ 0xfd < opcode <= 0xfd + 4 ->
       OnOpcode internal.GetMemoryCopyPadded newPrestateTracer opcode scope_log1
       = Done newPrestateTracer [])
  /\ OnOpcode internal.GetMemoryCopyPadded newPrestateTracer 0xfe scope_log1
     = Done newPrestateTracer [].
Proof.
  split; [ | reflexivity ].
  intros H.
  assert (Hnoop := H 0xa1 ltac:(discriminate) ltac:(lia)).
  vm_compute in Hnoop. discriminate Hnoop.
Qed.

(** ** The padded memory copy *)


Lemma GetMemoryCopyPadded_negative (m : list byte) (offset size : Z) :
  offset < 0 \/ size < 0 ->
  internal.GetMemoryCopyPadded m offset size = inr internal.RangeError.
Proof.
  intros Hneg. unfold internal.GetMemoryCopyPadded.
  destruct (Z.ltb_spec offset 0); [ reflexivity | ].
  destruct (Z.ltb_spec size 0); [ reflexivity | lia ].
Qed.



(** ** Hex chunks of the extracted data *)

Lemma EncodeToString_lowercase (src : list byte) (c : ascii) :
  In c (list_ascii_of_string (hex.EncodeToString src)) ->
  In c (list_ascii_of_string hex.hextable).
Proof.
  induction src as [ | v rest IH ];
    cbn [hex.EncodeToString list_ascii_of_string In]; [ tauto | ].
  destruct (digit_lowercase v) as [Hhi Hlo].
  intros [<- | [<- | Hrest]]; auto.
Qed.

Lemma ceil32_lt (n i : nat) :
  (i < (n + 31) / 32)%nat <-> (32 * i < n)%nat.
Proof.
  pose proof (Nat.div_mod_eq (n + 31) 32) as Hdm.
  pose proof (Nat.mod_upper_bound (n + 31) 32 ltac:(discriminate)) as Hmod.
  lia.
Qed.

Lemma hexChunks_length (data : list byte) :
  length (hexChunks data) = ((length data + 31) / 32)%nat.
Proof.
  unfold hexChunks. rewrite (chunkLoop_length data (length data)) by lia.
  now rewrite Nat.sub_0_r.
Qed.

Lemma hexChunks_nth (data : list byte) (i : nat) :
  (32 * i < length data)%nat ->
  nth_error (hexChunks data) i
  = Some ("0x" ++ hex.EncodeToString
                    (slice data (32 * i)
                       (Nat.min (32 * (i + 1)) (length data))))%string.
Proof.
  intros Hi. unfold hexChunks. rewrite chunkLoop_nth by lia.
  unfold hexChunk. cbn [Nat.add].
  now replace (32 * i + 32)%nat with (32 * (i + 1))%nat by lia.
Qed.

(** C4.  When the extraction yields [data], the hook appends one event whose
    [Data] has ceil(len(data) / 32) strings; the [i]-th is ["0x"] followed by
    the lower-case hex digits of the bytes [32 i .. min (32 (i + 1), len)]
    of [data], two digits per byte, so a shorter last chunk is not padded;
    33 bytes give two strings. *)
Theorem event_data_chunks (copy : copier) (t : prestateTracer) (opcode : Z)
    (scope : tracing.OpContext) (offset size topic : uint256.Int)
    (data : list byte) :
  0xa0 < opcode <= 0xa4 ->
  from_top 0 (tracing.StackData scope) = Some offset ->
  from_top 1 (tracing.StackData scope) = Some size ->
  from_top 2 (tracing.StackData scope) = Some topic ->
  copy (tracing.MemoryData scope)
    (int64 (uint256.Uint64 offset)) (int64 (uint256.Uint64 size)) = inl data ->
  exists ev,
    OnOpcode copy t opcode scope
    = Done {| pre := pre t ++ [ev]; isFail := isFail t; reason := reason t |} []
    /\ Caller ev = tracing.Address scope
    /\ Topics0 ev = topic
    /\ length (Data ev) = ((length data + 31) / 32)%nat
    /\ (forall i, (i < (length data + 31) / 32)%nat ->
          let chunk := slice data (32 * i)
                         (Nat.min (32 * (i + 1)) (length data)) in
          nth_error (Data ev) i
          = Some ("0x" ++ hex.EncodeToString chunk)%string
          /\ length chunk = Nat.min 32 (length data - 32 * i)
          /\ String.length (hex.EncodeToString chunk) = (2 * length chunk)%nat
          /\ forall c, In c (list_ascii_of_string (hex.EncodeToString chunk)) ->
                       In c (list_ascii_of_string "0123456789abcdef"))
    /\ (length data = 33%nat -> length (Data ev) = 2%nat).
Proof.
  intros Hop H0 H1 H2 Hcopy.
  exists {| Caller := tracing.Address scope; Topics0 := topic;
            Data := hexChunks data |}.
  split.
  { rewrite (OnOpcode_capture copy t opcode scope offset size topic)
      by assumption.
    unfold capture. now rewrite Hcopy. }
  cbn [Caller Topics0 Data].
  split; [ reflexivity | ]. split; [ reflexivity | ].
  split; [ apply hexChunks_length | ].
  split.
  - intros i Hi. cbv zeta. apply ceil32_lt in Hi.
    split; [ now apply hexChunks_nth | ].
    split; [ rewrite slice_length; lia | ].
    split; [ apply EncodeToString_length | apply EncodeToString_lowercase ].
  - intros Hlen. rewrite hexChunks_length, Hlen. reflexivity.
Qed.

Lemma event_data_chunks_witness :
  exists ev,
    OnOpcode internal.GetMemoryCopyPadded newPrestateTracer 0xa1 scope_33
    = Done {| pre := [] ++ [ev]; isFail := false; reason := None |} []
    /\ length (Data ev) = 2%nat
    /\ nth_error (Data ev) 1 = Some "0x21"%string.
Proof.
  destruct (event_data_chunks internal.GetMemoryCopyPadded newPrestateTracer
              0xa1 scope_33 1 33 9
              (repeat x42 31 ++ [x01; x21])
              ltac:(lia) eq_refl eq_refl eq_refl eq_refl)
    as (ev & Hrun & _ & _ & Hlen & Hnth & _).
  exists ev. split; [ exact Hrun | ]. split; [ exact Hlen | ].
  exact (proj1 (Hnth 1%nat ltac:(vm_compute; lia))).
Defined.

(** ** The result *)

(** C5.  If marshalling the report fails, [GetResult] returns no report and
    the marshalling error; if it succeeds, [GetResult] returns the report
    together with the stop reason as its error, which is absent when no
    stop was forced and present after [Stop] with a reason: a report does
    not mean there is no error. *)
Theorem GetResult_dual_signal (json_Marshal : report -> list byte + error)
    (t : prestateTracer) :
  let r := {| Event := pre t; IsFail := isFail t; Reason := reason t |} in
  (forall err, json_Marshal r = inr err ->
               GetResult json_Marshal t = (None, Some err))
  /\ (forall res, json_Marshal r = inl res ->
                  GetResult json_Marshal t = (Some res, reason t))
  /\ (forall res why,
        json_Marshal {| Event := pre t; IsFail := true; Reason := Some why |}
        = inl res ->
        GetResult json_Marshal (Stop t (Some why)) = (Some res, Some why)).
Proof.
  cbv zeta. unfold GetResult. repeat split.
  - intros err ->. reflexivity.
  - intros res ->. reflexivity.
  - intros res why. cbn [Stop pre isFail reason]. intros ->. reflexivity.
Qed.

Lemma GetResult_dual_signal_witness :
  GetResult marshal_sample newPrestateTracer = (Some [x7b; x7d], None)
  /\ GetResult marshal_sample (Stop newPrestateTracer (Some "timeout"%string))
     = (Some [x7b; x7d], Some "timeout"%string)
  /\ GetResult marshal_sample
       {| pre := []; isFail := true; reason := Some "unencodable"%string |}
     = (None, Some "json: unsupported value"%string).
Proof.
  split; [ | split ].
  - apply (proj1 (proj2 (GetResult_dual_signal marshal_sample
                           newPrestateTracer))).
    reflexivity.
  - apply (proj2 (proj2 (GetResult_dual_signal marshal_sample
                           newPrestateTracer))).
    reflexivity.
  - apply (proj1 (GetResult_dual_signal marshal_sample
                    {| pre := []; isFail := true;
                       reason := Some "unencodable"%string |})).
    reflexivity.
Defined.

(** ** Extraction failures *)

(** C6.  When the extraction of a log instruction fails, the hook returns
    the state it was given: no event is appended, [isFail] and [reason] are
    as before, one warning carrying the error is logged, and the hook has no
    other result through which the error could reach its caller. *)
Theorem extraction_failure_contained (copy : copier) (t : prestateTracer)
    (opcode : Z) (scope : tracing.OpContext)
    (offset size topic : uint256.Int) (err : error) :
  0xa0 < opcode <= 0xa4 ->
  from_top 0 (tracing.StackData scope) = Some offset ->
  from_top 1 (tracing.StackData scope) = Some size ->
  from_top 2 (tracing.StackData scope) = Some topic ->
  copy (tracing.MemoryData scope)
    (int64 (uint256.Uint64 offset)) (int64 (uint256.Uint64 size)) = inr err ->
  (exists w, OnOpcode copy t opcode scope = Done t [w] /\ w_err w = err)
  /\ step copy t (CallOnOpcode opcode scope) = Some t.
Proof.
  intros Hop H0 H1 H2 Hcopy.
  assert (Hrun : OnOpcode copy t opcode scope
                 = Done t [ {| w_msg := "failed to copy CREATE2 input";
                               w_err := err;
                               w_tracer := "prestateTracer";
                               w_offset := offset;
                               w_size := size |} ]).
  { rewrite (OnOpcode_capture copy t opcode scope offset size topic)
      by assumption.
    unfold capture. now rewrite Hcopy. }
  split.
  - eexists. split; [ exact Hrun | reflexivity ].
  - cbn [step]. now rewrite Hrun.
Qed.

Lemma extraction_failure_contained_witness :
  (exists w,
     OnOpcode internal.GetMemoryCopyPadded newPrestateTracer 0xa2 scope_negative
     = Done newPrestateTracer [w]
     /\ w_err w = internal.RangeError)
  /\ step internal.GetMemoryCopyPadded newPrestateTracer
       (CallOnOpcode 0xa2 scope_negative)
     = Some newPrestateTracer.
Proof.
  apply (extraction_failure_contained internal.GetMemoryCopyPadded
           newPrestateTracer 0xa2 scope_negative
           0 (2 ^ 64 - 1) 5 internal.RangeError);
    [ lia | reflexivity | reflexivity | reflexivity | reflexivity ].
Defined.

(** ** The failure flag and the stop reason over a session *)

Lemma from_top_ready (s : list uint256.Int) (k : nat) :
  (k < length s)%nat -> exists v, from_top k s = Some v.
Proof.
  intros Hk. unfold from_top.
  destruct (nth_error (rev s) k) as [v | ] eqn:Hnth; [ now exists v | ].
  apply nth_error_None in Hnth. rewrite length_rev in Hnth. lia.
Qed.

Lemma OnOpcode_returns (copy : copier) (t : prestateTracer) (opcode : Z)
    (scope : tracing.OpContext) :
  (3 <= length (tracing.StackData scope))%nat ->
  exists t' logged, OnOpcode copy t opcode scope = Done t' logged.
Proof.
  intros Hlen.
  destruct (Z.eq_dec opcode 0xfd) as [-> | Hfault].
  { rewrite OnOpcode_fault. eauto. }
  destruct (Z_lt_dec 0xa0 opcode) as [Hlo | Hlo];
    [ destruct (Z_le_dec opcode 0xa4) as [Hhi | Hhi] | ].
  - destruct (from_top_ready (tracing.StackData scope) 0 ltac:(lia)) as [o Ho].
    destruct (from_top_ready (tracing.StackData scope) 1 ltac:(lia)) as [s Hs].
    destruct (from_top_ready (tracing.StackData scope) 2 ltac:(lia)) as [p Hp].
    rewrite (OnOpcode_capture copy t opcode scope o s p) by (assumption || lia).
    unfold capture. destruct (copy _ _ _); eauto.
  - rewrite OnOpcode_other by lia. eauto.
  - rewrite OnOpcode_other by lia. eauto.
Qed.

Lemma run_isFail (copy : copier) (cs : list call) :
  forall t t', isFail t = true -> run copy t cs = Some t' -> isFail t' = true.
Proof.
  induction cs as [ | c cs IH ]; intros t t' Hfail; cbn [run].
  - now intros [= <-].
  - destruct (step copy t c) as [t1 | ] eqn:Hstep; [ | discriminate ].
    apply IH. now apply (step_frame copy t t1 c Hstep).
Qed.

Lemma run_returns (copy : copier) (cs : list call) :
  forall t, Forall stack_ready cs -> exists t', run copy t cs = Some t'.
Proof.
  induction cs as [ | c cs IH ]; intros t Hready; cbn [run].
  - now exists t.
  - inversion Hready as [ | c0 cs0 Hc Hcs ]; subst.
    destruct c as [opcode scope | | | | err]; cbn [step]; try now apply IH.
    destruct (OnOpcode_returns copy t opcode scope Hc) as (t1 & logged & ->).
    now apply IH.
Qed.

Lemma run_reason (copy : copier) (cs : list call) :
  forall t t',
    run copy t cs = Some t' ->
    reason t' = match last_stop cs with Some r => r | None => reason t end.
Proof.
  induction cs as [ | c cs IH ]; intros t t'; cbn [run].
  - now intros [= <-].
  - destruct (step copy t c) as [t1 | ] eqn:Hstep; [ | discriminate ].
    intros Hrun. rewrite (IH t1 t' Hrun).
    destruct c as [opcode scope | | | | err]; cbn [last_stop];
      try (destruct (last_stop cs); [ reflexivity | ];
           now apply (step_frame copy t t1 _ Hstep)).
    destruct (last_stop cs); [ reflexivity | ].
    cbn in Hstep. now injection Hstep as <-.
Qed.

(** C7.  Over any session of hook calls and stop calls, a failure flag that
    is set stays set (and a session whose instructions come with their
    operands on the stack does run to its end); and a log instruction
    observed after the fault instruction is still captured: its event is
    appended, with the flag still set. *)
Theorem failed_monotonic (copy : copier) :
  (forall cs t t',
     isFail t = true -> run copy t cs = Some t' -> isFail t' = true)
  /\ (forall cs t, Forall stack_ready cs -> exists t', run copy t cs = Some t')
  /\ (forall t scope0 opcode scope offset size topic data,
        0xa0 < opcode <= 0xa4 ->
        from_top 0 (tracing.StackData scope) = Some offset ->
        from_top 1 (tracing.StackData scope) = Some size ->
        from_top 2 (tracing.StackData scope) = Some topic ->
        copy (tracing.MemoryData scope)
          (int64 (uint256.Uint64 offset)) (int64 (uint256.Uint64 size))
        = inl data ->
        run copy t [CallOnOpcode 0xfd scope0; CallOnOpcode opcode scope]
        = Some {| pre := pre t ++ [ {| Caller := tracing.Address scope;
                                       Topics0 := topic;
                                       Data := hexChunks data |} ];
                  isFail := true;
                  reason := reason t |}).
Proof.
  split; [ | split ].
  - intros cs. apply run_isFail.
  - intros cs t. now apply run_returns.
  - intros t scope0 opcode scope offset size topic data Hop H0 H1 H2 Hcopy.
    cbn [run step]. rewrite OnOpcode_fault.
    rewrite (OnOpcode_capture copy _ opcode scope offset size topic)
      by assumption.
    unfold capture. now rewrite Hcopy.
Qed.

Lemma failed_monotonic_witness :
  run internal.GetMemoryCopyPadded newPrestateTracer
    [CallOnOpcode 0xfd scope_log1; CallOnOpcode 0xa1 scope_log1]
  = Some {| pre := [ {| Caller := [xaa]; Topics0 := 7;
                        Data := hexChunks [x42] |} ];
            isFail := true; reason := None |}
  /\ isFail (lookupLog (Stop newPrestateTracer None) [xaa] ["0x42"%string] 7)
     = true.
Proof.
  split.
  - apply (proj2 (proj2 (failed_monotonic internal.GetMemoryCopyPadded))
             newPrestateTracer scope_log1 0xa1 scope_log1 0 1 7 [x42]);
      [ lia | reflexivity | reflexivity | reflexivity | reflexivity ].
  - apply (proj1 (failed_monotonic internal.GetMemoryCopyPadded)
             [CallGetResult; CallOnOpcode 0xa1 scope_log1]
             (Stop newPrestateTracer None));
      reflexivity.
Defined.

(** C8.  After [Stop reasonA] and then [Stop reasonB] the reason is
    [reasonB] and the flag is set; every [Stop] sets the flag, whatever the
    state before it (so also after a fault), and leaves the events alone. *)
Theorem stop_last_writer_wins (t : prestateTracer)
    (reasonA reasonB : option error) :
  reason (Stop (Stop t reasonA) reasonB) = reasonB
  /\ isFail (Stop (Stop t reasonA) reasonB) = true
  /\ isFail (Stop t reasonA) = true
  /\ pre (Stop (Stop t reasonA) reasonB) = pre t
  /\ forall copy : copier,
       run copy t [CallStop reasonA; CallStop reasonB]
       = Some {| pre := pre t; isFail := true; reason := reasonB |}.
Proof. repeat split. Qed.

(** C9 as stated fails: after a forced stop with reason "timeout" a second
    forced stop replaces the reason. *)
Lemma stop_reason_overwritten :
  reason (Stop newPrestateTracer (Some "timeout"%string))
  = Some "timeout"%string
  /\ ~ (forall (c : call) (t' : prestateTracer),
          step internal.GetMemoryCopyPadded
            (Stop newPrestateTracer (Some "timeout"%string)) c = Some t' ->
          reason t' = reason (Stop newPrestateTracer (Some "timeout"%string))).
Proof.
  split; [ reflexivity | ].
  intros H.
  specialize (H (CallStop (Some "cancelled"%string)) _ eq_refl).
  discriminate H.
Qed.

(** C9, as amended.  Only a forced stop changes the stop reason: at the end
    of any session the reason is the one given to the last [Stop] of the
    session, and the reason the session started with when it has no [Stop];
    hook calls and result calls never touch it. *)
Theorem stop_reason_set_by_last_stop (copy : copier) (cs : list call)
    (t t' : prestateTracer) :
  run copy t cs = Some t' ->
  reason t' = match last_stop cs with
              | Some r => r
              | None => reason t
              end.
Proof. apply run_reason. Qed.

Lemma stop_reason_set_by_last_stop_witness :
  reason {| pre := [ {| Caller := [xaa]; Topics0 := 7;
                        Data := ["0x42"%string] |} ];
            isFail := true; reason := Some "timeout"%string |}
  = Some "timeout"%string.
Proof.
  apply (stop_reason_set_by_last_stop internal.GetMemoryCopyPadded
           [CallStop (Some "timeout"%string); CallOnOpcode 0xfd scope_log1;
            CallOnOpcode 0xa1 scope_log1; CallGetResult]
           newPrestateTracer).
  reflexivity.
Defined.

(** ** Operands wider than 63 bits *)

Lemma Uint64_mod (x : Z) : uint256.Uint64 x = x mod 2 ^ 64.
Proof.
  unfold uint256.Uint64.
  change (2 ^ 64 - 1) with (Z.ones 64). apply Z.land_ones. lia.
Qed.

Lemma int64_Uint64 (x : Z) :
  - 2 ^ 63 <= int64 (uint256.Uint64 x) < 2 ^ 63
  /\ (int64 (uint256.Uint64 x)) mod 2 ^ 64 = x mod 2 ^ 64
  /\ (Z.testbit x 63 = true <-> int64 (uint256.Uint64 x) < 0).
Proof.
  rewrite Uint64_mod.
  assert (Hlow : Z.testbit x 63 = Z.testbit (x mod 2 ^ 64) 63).
  { symmetry. apply Z.mod_pow2_bits_low. lia. }
  rewrite Hlow.
  pose proof (Z.mod_pos_bound x (2 ^ 64) ltac:(lia)) as Hu.
  assert (Hmm : (x mod 2 ^ 64) mod 2 ^ 64 = x mod 2 ^ 64)
    by (apply Z.mod_mod; lia).
  revert Hu Hmm. generalize (x mod 2 ^ 64) as u. intros u Hu Hmm.
  rewrite Z.testbit_true by lia. unfold int64.
  destruct (Z.ltb_spec u (2 ^ 63)) as [Hsmall | Hbig].
  - rewrite Z.div_small by lia. repeat split; try lia; try exact Hmm.
    cbn. discriminate.
  - replace u with ((u - 2 ^ 63) + 1 * 2 ^ 63) at 5 by lia.
    rewrite Z.div_add by lia. rewrite (Z.div_small (u - 2 ^ 63)) by lia.
    repeat split; try lia.
    replace (u - 2 ^ 64) with (u + (-1) * 2 ^ 64) by lia.
    rewrite Z.mod_add by lia. exact Hmm.
Qed.

(** C10.  The hook hands the extractor the low 64 bits of the [offset] and
    [size] words, read as signed 64-bit integers.  The value handed over is
    negative exactly when bit 63 of the word is set, and then the extraction
    is rejected and the hook returns the state unchanged: no event, only a
    warning. *)
Theorem operands_as_signed_64 (t : prestateTracer) (opcode : Z)
    (scope : tracing.OpContext) (offset size topic : uint256.Int) :
  0xa0 < opcode <= 0xa4 ->
  from_top 0 (tracing.StackData scope) = Some offset ->
  from_top 1 (tracing.StackData scope) = Some size ->
  from_top 2 (tracing.StackData scope) = Some topic ->
  (forall copy : copier,
     OnOpcode copy t opcode scope = capture copy t scope offset size topic)
  /\ (forall x : uint256.Int,
        - 2 ^ 63 <= int64 (uint256.Uint64 x) < 2 ^ 63
        /\ (int64 (uint256.Uint64 x)) mod 2 ^ 64 = x mod 2 ^ 64
        /\ (Z.testbit x 63 = true <-> int64 (uint256.Uint64 x) < 0))
  /\ (Z.testbit offset 63 = true \/ Z.testbit size 63 = true ->
      internal.GetMemoryCopyPadded (tracing.MemoryData scope)
        (int64 (uint256.Uint64 offset)) (int64 (uint256.Uint64 size))
      = inr internal.RangeError
      /\ exists w,
           OnOpcode internal.GetMemoryCopyPadded t opcode scope = Done t [w]
           /\ w_err w = internal.RangeError).
Proof.
  intros Hop H0 H1 H2.
  split; [ intros copy; now apply OnOpcode_capture | ].
  split; [ exact int64_Uint64 | ].
  intros Hbit.
  assert (Hneg : internal.GetMemoryCopyPadded (tracing.MemoryData scope)
                   (int64 (uint256.Uint64 offset))
                   (int64 (uint256.Uint64 size))
                 = inr internal.RangeError).
  { apply GetMemoryCopyPadded_negative.
    destruct Hbit as [Hbit | Hbit]; [ left | right ];
      now apply int64_Uint64. }
  split; [ exact Hneg | ].
  rewrite (OnOpcode_capture internal.GetMemoryCopyPadded t opcode scope
             offset size topic) by assumption.
  unfold capture. rewrite Hneg. eexists. split; reflexivity.
Qed.

Lemma operands_as_signed_64_witness :
  int64 (uint256.Uint64 (2 ^ 64 - 1)) < 0
  /\ exists w,
       OnOpcode internal.GetMemoryCopyPadded newPrestateTracer 0xa2
         scope_negative
       = Done newPrestateTracer [w]
       /\ w_err w = internal.RangeError.
Proof.
  pose proof (operands_as_signed_64 newPrestateTracer 0xa2 scope_negative
                0 (2 ^ 64 - 1) 5 ltac:(lia) eq_refl eq_refl eq_refl)
    as (_ & Hconv & Hdrop).
  split.
  - apply (proj2 (proj2 (Hconv (2 ^ 64 - 1)))). reflexivity.
  - apply Hdrop. right. reflexivity.
Defined.

(** * Further properties of the tracer *)

(** ** What one hook call does to the state *)

Lemma log_range_false (opcode : Z) :
  ~ 0xa0 < opcode <= 0xa4 -> (opcode >? 0xa0) && (opcode <=? 0xa4) = false.
Proof.
  intros Hout. destruct ((opcode >? 0xa0) && (opcode <=? 0xa4)) eqn:Hrange;
    [ | reflexivity ].
  apply log_range_test in Hrange. contradiction.
Qed.

Lemma OnOpcode_effect (copy : copier) (t t' : prestateTracer) (opcode : Z)
    (scope : tracing.OpContext) (logged : list warning) :
  OnOpcode copy t opcode scope = Done t' logged ->
  pre t' = pre t ++ emitted copy (CallOnOpcode opcode scope)
  /\ (length (emitted copy (CallOnOpcode opcode scope)) + length logged
      = if is_log (CallOnOpcode opcode scope) then 1 else 0)%nat
  /\ isFail t' = isFail t || sets_fail (CallOnOpcode opcode scope).
Proof.
  cbn [emitted is_log sets_fail].
  destruct (Z.eq_dec opcode 0xfd) as [-> | Hfault].
  { rewrite OnOpcode_fault. intros [= <- <-]. cbn.
    rewrite app_nil_r, orb_true_r. auto. }
  rewrite (proj2 (Z.eqb_neq opcode 0xfd) Hfault), orb_false_r.
  destruct (Z_lt_dec 0xa0 opcode) as [Hlo | Hlo];
    [ destruct (Z_le_dec opcode 0xa4) as [Hhi | Hhi] | ].
  - rewrite OnOpcode_log_family by lia.
    rewrite (proj2 (log_range_test opcode)) by lia.
    destruct (from_top 0 _) as [offset | ]; [ | discriminate ].
    destruct (from_top 1 _) as [size | ]; [ | discriminate ].
    destruct (from_top 2 _) as [topics0 | ]; [ | discriminate ].
    unfold capture. destruct (copy _ _ _) as [data | err];
      intros [= <- <-]; cbn; rewrite ?app_nil_r; auto.
  - rewrite OnOpcode_other, log_range_false by lia.
    intros [= <- <-]. cbn. rewrite app_nil_r. auto.
  - rewrite OnOpcode_other, log_range_false by lia.
    intros [= <- <-]. cbn. rewrite app_nil_r. auto.
Qed.

Lemma step_effect (copy : copier) (t t' : prestateTracer) (c : call) :
  step copy t c = Some t' ->
  pre t' = pre t ++ emitted copy c
  /\ isFail t' = isFail t || sets_fail c.
Proof.
  destruct c as [opcode scope | | | | err]; cbn [step].
  - destruct (OnOpcode copy t opcode scope) as [ | t1 logged] eqn:Hop;
      [ discriminate | ].
    intros [= <-]. apply OnOpcode_effect in Hop. tauto.
  - intros [= <-]. cbn. now rewrite app_nil_r, orb_false_r.
  - intros [= <-]. cbn. now rewrite app_nil_r, orb_false_r.
  - intros [= <-]. cbn. now rewrite app_nil_r, orb_false_r.
  - intros [= <-]. cbn. now rewrite app_nil_r, orb_true_r.
Qed.

Lemma run_logged_state (copy : copier) (cs : list call) :
  forall t, option_map fst (run_logged copy t cs) = run copy t cs.
Proof.
  induction cs as [ | c cs IH ]; intros t; [ reflexivity | ].
  destruct c as [opcode scope | | | | err]; cbn [run_logged run step];
    try apply IH.
  destruct (OnOpcode copy t opcode scope) as [ | t1 logged];
    [ reflexivity | ].
  rewrite <- IH. now destruct (run_logged copy t1 cs) as [[t2 later] | ].
Qed.

Lemma run_pre (copy : copier) (cs : list call) :
  forall t t',
    run copy t cs = Some t' ->
    pre t' = pre t ++ flat_map (emitted copy) cs.
Proof.
  induction cs as [ | c cs IH ]; intros t t'; cbn [run flat_map].
  - intros [= <-]. now rewrite app_nil_r.
  - destruct (step copy t c) as [t1 | ] eqn:Hstep; [ | discriminate ].
    intros Hrun. rewrite (IH t1 t' Hrun).
    rewrite (proj1 (step_effect copy t t1 c Hstep)). now rewrite app_assoc.
Qed.

Lemma run_flag (copy : copier) (cs : list call) :
  forall t t',
    run copy t cs = Some t' ->
    isFail t' = isFail t || existsb sets_fail cs.
Proof.
  induction cs as [ | c cs IH ]; intros t t'; cbn [run existsb].
  - intros [= <-]. now rewrite orb_false_r.
  - destruct (step copy t c) as [t1 | ] eqn:Hstep; [ | discriminate ].
    intros Hrun. rewrite (IH t1 t' Hrun).
    rewrite (proj2 (step_effect copy t t1 c Hstep)). now rewrite orb_assoc.
Qed.

(** ** The events of a session *)

(** X1.  A session only appends to the event list: at its end the list is
    the initial one followed by the events of the log instructions whose
    extraction succeeded, one each, in the order they were observed; stops,
    result calls, transaction hooks, other opcodes and failed extractions
    contribute nothing. *)
Theorem session_events_in_order (copy : copier) (cs : list call)
    (t t' : prestateTracer) :
  run copy t cs = Some t' ->
  pre t' = pre t ++ flat_map (emitted copy) cs.
Proof. apply run_pre. Qed.

Lemma session_events_in_order_witness :
  pre {| pre := [ {| Caller := [xaa]; Topics0 := 7; Data := ["0x42"%string] |};
                  {| Caller := [xaa]; Topics0 := 0x33;
                     Data := ["0xbbcc"%string] |} ];
         isFail := true; reason := None |}
  = pre newPrestateTracer
    ++ flat_map (emitted internal.GetMemoryCopyPadded)
         [CallOnOpcode 0xa1 scope_log1; CallOnOpcode 0xa2 scope_negative;
          CallStop None; CallOnOpcode 0xa3 scope_four; CallGetResult].
Proof.
  apply (session_events_in_order internal.GetMemoryCopyPadded
           [CallOnOpcode 0xa1 scope_log1; CallOnOpcode 0xa2 scope_negative;
            CallStop None; CallOnOpcode 0xa3 scope_four; CallGetResult]
           newPrestateTracer).
  reflexivity.
Defined.

(** X2.  In a session that runs to its end every observed log instruction
    leaves exactly one trace: the events appended and the warnings logged
    together number as many as the log instructions observed. *)
Theorem session_event_or_warning (copy : copier) (cs : list call)
    (t t' : prestateTracer) (logged : list warning) :
  run_logged copy t cs = Some (t', logged) ->
  run copy t cs = Some t'
  /\ (length (pre t') + length logged
      = length (pre t) + length (filter is_log cs))%nat.
Proof.
  intros Hrun. split.
  { rewrite <- run_logged_state, Hrun. reflexivity. }
  revert t t' logged Hrun.
  induction cs as [ | c cs IH ]; intros t t' logged.
  - intros [= <- <-]. cbn. lia.
  - assert (Hquiet : forall t1,
              step copy t c = Some t1 -> is_log c = false ->
              emitted copy c = [] ->
              run_logged copy t1 cs = Some (t', logged) ->
              (length (pre t') + length logged
               = length (pre t) + length (filter is_log (c :: cs)))%nat).
    { intros t1 Hstep Hlog Hnone Hrest. cbn [filter]. rewrite Hlog.
      rewrite (IH t1 t' logged Hrest).
      rewrite (proj1 (step_effect copy t t1 c Hstep)), Hnone, app_nil_r.
      reflexivity. }
    destruct c as [opcode scope | | | | err]; cbn [run_logged];
      try (now apply Hquiet).
    destruct (OnOpcode copy t opcode scope) as [ | t1 here] eqn:Hop;
      [ discriminate | ].
    destruct (run_logged copy t1 cs) as [[t2 later] | ] eqn:Hrest;
      [ | discriminate ].
    intros [= <- <-].
    specialize (IH t1 t2 later Hrest).
    destruct (OnOpcode_effect copy t t1 opcode scope here Hop)
      as (Hpre & Hone & _).
    rewrite Hpre, length_app in IH. rewrite length_app. cbn [filter].
    destruct (is_log (CallOnOpcode opcode scope)); cbn [length]; lia.
Qed.

Lemma session_event_or_warning_witness :
  run internal.GetMemoryCopyPadded newPrestateTracer
    [CallOnOpcode 0xa1 scope_log1; CallOnOpcode 0xa2 scope_negative;
     CallOnOpcode 0x01 scope_log1]
  = Some {| pre := [ {| Caller := [xaa]; Topics0 := 7;
                        Data := ["0x42"%string] |} ];
            isFail := false; reason := None |}
  /\ (1 + 1
      = 0 + length (filter is_log
                      [CallOnOpcode 0xa1 scope_log1;
                       CallOnOpcode 0xa2 scope_negative;
                       CallOnOpcode 0x01 scope_log1]))%nat.
Proof.
  apply (session_event_or_warning internal.GetMemoryCopyPadded
           [CallOnOpcode 0xa1 scope_log1; CallOnOpcode 0xa2 scope_negative;
            CallOnOpcode 0x01 scope_log1]
           newPrestateTracer
           {| pre := [ {| Caller := [xaa]; Topics0 := 7;
                          Data := ["0x42"%string] |} ];
              isFail := false; reason := None |}
           [ {| w_msg := "failed to copy CREATE2 input";
                w_err := internal.RangeError;
                w_tracer := "prestateTracer";
                w_offset := 0;
                w_size := 2 ^ 64 - 1 |} ]).
  reflexivity.
Defined.

(** ** When the hook panics *)




(** ** The failure flag, exactly *)

(** X4.  At the end of a session the failure flag is set exactly when it was
    set at the start or the session contains an observation of opcode [0xfd]
    or a [Stop]; no other call, and no failed extraction, sets it. *)
Theorem session_isFail_exact (copy : copier) (cs : list call)
    (t t' : prestateTracer) :
  run copy t cs = Some t' ->
  isFail t' = isFail t || existsb sets_fail cs.
Proof. apply run_flag. Qed.

Lemma session_isFail_exact_witness :
  isFail {| pre := []; isFail := false; reason := None |}
  = isFail newPrestateTracer
    || existsb sets_fail
         [CallOnOpcode 0xa2 scope_negative; CallOnOpcode 0xfe scope_log1;
          CallGetResult].
Proof.
  apply (session_isFail_exact internal.GetMemoryCopyPadded
           [CallOnOpcode 0xa2 scope_negative; CallOnOpcode 0xfe scope_log1;
            CallGetResult]
           newPrestateTracer).
  reflexivity.
Defined.

(** ** What the hook reads *)

Lemma from_top_app (below top3 : list uint256.Int) (k : nat) :
  (k < length top3)%nat ->
  from_top k (below ++ top3) = from_top k top3.
Proof.
  intros Hk. unfold from_top. rewrite rev_app_distr.
  apply nth_error_app1. now rewrite length_rev.
Qed.

Lemma OnOpcode_on_operands (copy : copier) (t : prestateTracer) (opcode : Z)
    (below : list uint256.Int) (topic size offset : uint256.Int)
    (addr : common.Address) (mem : list byte) :
  0xa0 < opcode <= 0xa4 ->
  OnOpcode copy t opcode
    {| tracing.StackData := below ++ [topic; size; offset];
       tracing.Address := addr;
       tracing.MemoryData := mem |}
  = match copy mem (int64 (uint256.Uint64 offset))
            (int64 (uint256.Uint64 size)) with
    | inr err =>
        Done t [ {| w_msg := "failed to copy CREATE2 input";
                    w_err := err;
                    w_tracer := "prestateTracer";
                    w_offset := offset;
                    w_size := size |} ]
    | inl data =>
        Done {| pre := pre t ++ [ {| Caller := addr; Topics0 := topic;
                                     Data := hexChunks data |} ];
                isFail := isFail t; reason := reason t |} []
    end.
Proof.
  intros Hop.
  rewrite (OnOpcode_capture copy t opcode _ offset size topic);
    [ reflexivity | exact Hop | .. ];
    cbn [tracing.StackData]; rewrite from_top_app by (cbn; lia); reflexivity.
Qed.

(** X5.  The hook looks at nothing below the third stack slot: with the same
    three topmost words, address and memory, it has the same outcome
    whatever lies deeper in the stack, for every opcode. *)
Theorem OnOpcode_ignores_deep_stack (copy : copier) (t : prestateTracer)
    (opcode : Z) (below below' : list uint256.Int)
    (topic size offset : uint256.Int) (addr : common.Address)
    (mem : list byte) :
  OnOpcode copy t opcode
    {| tracing.StackData := below ++ [topic; size; offset];
       tracing.Address := addr;
       tracing.MemoryData := mem |}
  = OnOpcode copy t opcode
      {| tracing.StackData := below' ++ [topic; size; offset];
         tracing.Address := addr;
         tracing.MemoryData := mem |}.
Proof.
  destruct (Z.eq_dec opcode 0xfd) as [-> | Hfault].
  { now rewrite !OnOpcode_fault. }
  destruct (Z_lt_dec 0xa0 opcode) as [Hlo | Hlo];
    [ destruct (Z_le_dec opcode 0xa4) as [Hhi | Hhi] | ].
  - now rewrite !OnOpcode_on_operands by lia.
  - now rewrite !OnOpcode_other by lia.
  - now rewrite !OnOpcode_other by lia.
Qed.

(** X6.  Of the [offset] and [size] words only the low 64 bits matter: two
    observations whose words agree modulo [2^64] leave the same state (an
    offset of [2^64 + n] is read as [n]); and a word below [2^63] reaches
    the extractor unchanged. *)
Theorem operands_low_64_bits_only (copy : copier) (t : prestateTracer)
    (opcode : Z) (below : list uint256.Int)
    (topic size offset size' offset' : uint256.Int)
    (addr : common.Address) (mem : list byte) :
  offset mod 2 ^ 64 = offset' mod 2 ^ 64 ->
  size mod 2 ^ 64 = size' mod 2 ^ 64 ->
  step copy t
    (CallOnOpcode opcode
       {| tracing.StackData := below ++ [topic; size; offset];
          tracing.Address := addr;
          tracing.MemoryData := mem |})
  = step copy t
      (CallOnOpcode opcode
         {| tracing.StackData := below ++ [topic; size'; offset'];
            tracing.Address := addr;
            tracing.MemoryData := mem |})
  /\ (0 <= offset < 2 ^ 63 -> int64 (uint256.Uint64 offset) = offset).
Proof.
  intros Hoff Hsize. split.
  - cbn [step].
    destruct (Z.eq_dec opcode 0xfd) as [-> | Hfault].
    { now rewrite !OnOpcode_fault. }
    destruct (Z_lt_dec 0xa0 opcode) as [Hlo | Hlo];
      [ destruct (Z_le_dec opcode 0xa4) as [Hhi | Hhi] | ].
    + rewrite !OnOpcode_on_operands by lia.
      rewrite !Uint64_mod, <- Hoff, <- Hsize.
      now destruct (copy _ _ _).
    + now rewrite !OnOpcode_other by lia.
    + now rewrite !OnOpcode_other by lia.
  - intros Hsmall. rewrite Uint64_mod, Z.mod_small by lia.
    unfold int64. destruct (Z.ltb_spec offset (2 ^ 63)); [ reflexivity | lia ].
Qed.

Lemma operands_low_64_bits_only_witness :
  step internal.GetMemoryCopyPadded newPrestateTracer
    (CallOnOpcode 0xa1
       {| tracing.StackData := [] ++ [7; 2 ^ 64 + 1; 2 ^ 200];
          tracing.Address := [xaa];
          tracing.MemoryData := [x42] |})
  = step internal.GetMemoryCopyPadded newPrestateTracer
      (CallOnOpcode 0xa1
         {| tracing.StackData := [] ++ [7; 1; 0];
            tracing.Address := [xaa];
            tracing.MemoryData := [x42] |})
  /\ int64 (uint256.Uint64 5) = 5.
Proof.
  pose proof (operands_low_64_bits_only internal.GetMemoryCopyPadded
                newPrestateTracer 0xa1 [] 7 (2 ^ 64 + 1) (2 ^ 200) 1 0
                [xaa] [x42] eq_refl eq_refl) as [Hsame _].
  pose proof (operands_low_64_bits_only internal.GetMemoryCopyPadded
                newPrestateTracer 0xa1 [] 7 1 5 1 5
                [xaa] [x42] eq_refl eq_refl) as [_ Hsmall].
  split; [ exact Hsame | apply Hsmall; lia ].
Defined.

(** X7.  The hook treats the four opcodes of the log family alike: whichever
    of them is observed, it reads the same three words and records a single
    topic, so the outcome does not depend on the opcode within the family. *)
Theorem log_family_uniform (copy : copier) (t : prestateTracer)
    (opcode opcode' : Z) (scope : tracing.OpContext) :
  0xa0 < opcode <= 0xa4 ->
  0xa0 < opcode' <= 0xa4 ->
  OnOpcode copy t opcode scope = OnOpcode copy t opcode' scope.
Proof.
  intros Hop Hop'. now rewrite !OnOpcode_log_family by assumption.
Qed.

Lemma log_family_uniform_witness :
  OnOpcode internal.GetMemoryCopyPadded newPrestateTracer 0xa1 scope_four
  = OnOpcode internal.GetMemoryCopyPadded newPrestateTracer 0xa4 scope_four.
Proof.
  apply (log_family_uniform internal.GetMemoryCopyPadded newPrestateTracer
           0xa1 0xa4 scope_four); lia.
Defined.

(** ** A forced stop does not gate the hook *)

Lemma step_after_Stop (copy : copier) (t : prestateTracer)
    (err : option error) (c : call) :
  last_stop [c] = None ->
  step copy (Stop t err) c
  = option_map (fun t' => Stop t' err) (step copy t c).
Proof.
  destruct c as [opcode scope | | | | err']; cbn [last_stop step option_map];
    try reflexivity; [ | discriminate ].
  intros _. unfold OnOpcode.
  destruct (opcode =? 0xfd); [ reflexivity | ].
  destruct ((opcode >? 0xa0) && (opcode <=? 0xa4)); [ | reflexivity ].
  cbv zeta.
  destruct (index _ _); [ | reflexivity ].
  destruct (index _ _); [ | reflexivity ].
  destruct (index _ _); [ | reflexivity ].
  destruct (copy _ _ _); reflexivity.
Qed.

Lemma run_after_Stop (copy : copier) (err : option error) (cs : list call) :
  forall t,
    last_stop cs = None ->
    run copy (Stop t err) cs
    = option_map (fun t' => Stop t' err) (run copy t cs).
Proof.
  induction cs as [ | c cs IH ]; intros t Hfree; [ reflexivity | ].
  assert (Hc : last_stop [c] = None /\ last_stop cs = None).
  { destruct c; cbn [last_stop] in *; auto.
    destruct (last_stop cs); discriminate. }
  destruct Hc as [Hc Hcs]. cbn [run].
  rewrite (step_after_Stop copy t err c Hc).
  destruct (step copy t c) as [t1 | ]; cbn [option_map];
    [ now apply IH | reflexivity ].
Qed.

Lemma run_snoc (copy : copier) (c : call) (cs : list call) :
  forall t,
    run copy t (cs ++ [c])
    = match run copy t cs with
      | Some t' => step copy t' c
      | None => None
      end.
Proof.
  induction cs as [ | c0 cs IH ]; intros t; cbn [app run].
  - now destruct (step copy t c).
  - destruct (step copy t c0) as [t1 | ]; [ apply IH | reflexivity ].
Qed.

(** X8.  The hook never consults the stop state: a forced stop placed before
    a stretch of hook and result calls gives the same final state as the
    same stop placed after them.  Instructions observed after [Stop] are
    captured as before it. *)
Theorem Stop_commutes_with_observation (copy : copier) (t : prestateTracer)
    (err : option error) (cs : list call) :
  last_stop cs = None ->
  run copy t (CallStop err :: cs) = run copy t (cs ++ [CallStop err]).
Proof.
  intros Hfree. rewrite run_snoc. cbn [run step].
  rewrite (run_after_Stop copy err cs t Hfree).
  now destruct (run copy t cs).
Qed.

Lemma Stop_commutes_with_observation_witness :
  run internal.GetMemoryCopyPadded newPrestateTracer
    (CallStop (Some "timeout"%string)
     :: [CallOnOpcode 0xa1 scope_log1; CallOnOpcode 0xfd scope_log1])
  = run internal.GetMemoryCopyPadded newPrestateTracer
      ([CallOnOpcode 0xa1 scope_log1; CallOnOpcode 0xfd scope_log1]
       ++ [CallStop (Some "timeout"%string)]).
Proof.
  apply (Stop_commutes_with_observation internal.GetMemoryCopyPadded
           newPrestateTracer (Some "timeout"%string)
           [CallOnOpcode 0xa1 scope_log1; CallOnOpcode 0xfd scope_log1]).
  reflexivity.
Defined.

(** ** The result of a whole session *)

(** X9.  For a session run on a fresh tracer, [GetResult] marshals the
    events of the session in order, the flag saying whether a fault opcode
    or a stop occurred, and the reason of the last stop; when marshalling
    succeeds its error result is that reason, so a session that only saw
    the fault opcode reports [isFail] but returns no error. *)
Theorem GetResult_of_session (copy : copier)
    (json_Marshal : report -> list byte + error) (cs : list call)
    (t' : prestateTracer) :
  run copy newPrestateTracer cs = Some t' ->
  let why := match last_stop cs with Some r => r | None => None end in
  GetResult json_Marshal t'
  = match json_Marshal {| Event := flat_map (emitted copy) cs;
                          IsFail := existsb sets_fail cs;
                          Reason := why |} with
    | inr err => (None, Some err)
    | inl res => (Some res, why)
    end.
Proof.
  intros Hrun. cbv zeta. unfold GetResult.
  rewrite (run_pre copy cs _ _ Hrun), (run_flag copy cs _ _ Hrun),
    (run_reason copy cs _ _ Hrun).
  reflexivity.
Qed.

Lemma GetResult_of_session_witness :
  GetResult marshal_sample
    {| pre := [ {| Caller := [xaa]; Topics0 := 7; Data := ["0x42"%string] |} ];
       isFail := true; reason := None |}
  = (Some [x7b; x7d], None).
Proof.
  apply (GetResult_of_session internal.GetMemoryCopyPadded marshal_sample
           [CallOnOpcode 0xfd scope_log1; CallOnOpcode 0xa1 scope_log1]).
  reflexivity.
Defined.

(** ** Reading the event data back *)

Lemma digits_decode (v : byte) :
  exists a b : N,
    fromHexChar (hex.digit (N.shiftr (Byte.to_N v) 4)) = Some a
    /\ fromHexChar (hex.digit (N.land (Byte.to_N v) 0x0f)) = Some b
    /\ Byte.of_N (16 * a + b) = Some v.
Proof.
  destruct v; vm_compute; do 2 eexists; repeat split; reflexivity.
Qed.

Lemma DecodeString_EncodeToString (src : list byte) :
  DecodeString (hex.EncodeToString src) = Some src.
Proof.
  induction src as [ | v rest IH ]; [ reflexivity | ].
  cbn [hex.EncodeToString DecodeString].
  destruct (digits_decode v) as (a & b & -> & -> & Hv).
  now rewrite IH, Hv.
Qed.

Lemma decodeChunks_cons (digits : list byte) (rest : list string) :
  decodeChunks (("0x" ++ hex.EncodeToString digits)%string :: rest)
  = match decodeChunks rest with
    | Some later => Some (digits ++ later)
    | None => None
    end.
Proof.
  cbn [decodeChunks String.append]. now rewrite DecodeString_EncodeToString.
Qed.

Lemma slice_then_rest {A : Type} (s : list A) (i : nat) :
  slice s i (Nat.min (i + 32) (length s)) ++ skipn (i + 32) s = skipn i s.
Proof.
  unfold slice.
  replace (i + 32)%nat with (32 + i)%nat at 2 by lia.
  rewrite <- skipn_skipn.
  destruct (le_lt_dec (i + 32) (length s)) as [Hfull | Hlast].
  - replace (Nat.min (i + 32) (length s) - i)%nat with 32%nat by lia.
    apply firstn_skipn.
  - rewrite (skipn_all2 (n := 32)) by (rewrite length_skipn; lia).
    rewrite firstn_all2 by (rewrite length_skipn; lia).
    apply app_nil_r.
Qed.

Lemma decodeChunks_chunkLoop (data : list byte) :
  forall (n i : nat),
    (length data - i <= n)%nat ->
    decodeChunks (chunkLoop data i []) = Some (skipn i data).
Proof.
  induction n as [ | n IH ]; intros i Hn.
  - rewrite chunkLoop_done by lia. rewrite skipn_all2 by lia. reflexivity.
  - destruct (lt_dec i (length data)) as [Hlt | Hge].
    + rewrite chunkLoop_cons by exact Hlt. unfold hexChunk.
      rewrite decodeChunks_cons, IH by lia.
      now rewrite slice_then_rest.
    + rewrite chunkLoop_done by lia. rewrite skipn_all2 by lia. reflexivity.
Qed.

(** X10.  The chunk strings lose nothing: stripping the [0x] of each chunk,
    decoding the hex digits and joining the results gives back exactly the
    extracted bytes, for data of any length (also empty, also not a
    multiple of 32); hence different data never give the same [Data]. *)
Theorem hexChunks_round_trip (data : list byte) :
  decodeChunks (hexChunks data) = Some data
  /\ forall data', hexChunks data = hexChunks data' -> data = data'.
Proof.
  assert (Hback : forall d, decodeChunks (hexChunks d) = Some d).
  { intros d. unfold hexChunks.
    now rewrite (decodeChunks_chunkLoop d (length d)) by lia. }
  split; [ apply Hback | ].
  intros data' Hsame.
  pose proof (Hback data) as Hd. rewrite Hsame, Hback in Hd.
  now injection Hd.
Qed.

Lemma hexChunks_round_trip_witness :
  decodeChunks (hexChunks (repeat x42 31 ++ [x01; x21]))
  = Some (repeat x42 31 ++ [x01; x21])
  /\ repeat x42 31 ++ [x01; x21] = repeat x42 31 ++ [x01; x21].
Proof.
  pose proof (hexChunks_round_trip (repeat x42 31 ++ [x01; x21]))
    as [Hback Hinj].
  split; [ exact Hback | apply Hinj; reflexivity ].
Defined.
